(** * tensorflow/python/ops/numpy_ops/__init__.py

    The file is the package initialiser of [tf.experimental.numpy]: a
    sequence of import statements followed by three one-line functions,
    [max], [min] and [round], which forward to [amax], [amin] and [around].

    The development has two parts.
    - [Py] and [numpy_ops]: Python's call protocol (binding of positional
      and keyword arguments to a signature with defaults, exceptions, the
      state a call runs in) and the three wrappers written over it.
    - [Namespace] and [module_body]: the import statements and the three
      [def]s as a statement list, run by a small interpreter of
      [from M import x [as y]], [from M import *] and [def].

    The functions [amax], [amin], [around] and the decorator
    [np_utils.np_doc], as well as the contents of every imported module,
    live in sibling files; they are variables of the sections below. *)

From Stdlib Require Import ZArith List String Lia.
From stdpp Require Import base option list strings gmap fin_maps.

Local Open Scope string_scope.

(** ** Python values, exceptions and argument binding *)

Module Py.

(** The values the wrappers handle. They never inspect an argument, so
    arrays, tensors, dtypes and every other heap object are a reference. *)
#[warnings="-register-all"]
Inductive value : Type :=
| VNone
| VBool (b : bool)
| VInt (n : Z)
| VStr (s : string)
| VTuple (items : list value)
| VRef (addr : nat).

Definition kwargs : Type := list (string * value).

(** Why a call does not fit a signature. CPython raises [TypeError] in
    each of these cases; only the message differs. *)
Inductive bind_failure : Type :=
| UnexpectedKeyword (k : string)
| MultipleValues (k : string)
| TooManyPositional (given : nat)
| MissingArgument (k : string).

(** An exception is raised either by the call machinery, when the
    arguments do not fit the signature, or by code outside this file. *)
Inductive exn : Type :=
| BindError (why : bind_failure)
| Raised (kind : string) (detail : value).

Definition exn_kind (e : exn) : string :=
  match e with
  | BindError _ => "TypeError"
  | Raised k _ => k
  end.

Inductive result (A : Type) : Type :=
| Returns (a : A)
| Raises (e : exn).
Arguments Returns {A} a.
Arguments Raises {A} e.

Definition outcome : Type := result value.

(** A parameter of a [def]: its name and its default, if it has one. *)
Record param : Type := Param { p_name : string; p_default : option value }.

Definition slots : Type := list (param * option value).

(** Positional arguments fill the parameters from the left. *)
Fixpoint positional_slots (ps : list param) (pos : list value) : slots :=
  match ps, pos with
  | [], _ => []
  | p :: ps', [] => (p, None) :: positional_slots ps' []
  | p :: ps', v :: pos' => (p, Some v) :: positional_slots ps' pos'
  end.

(** A keyword argument goes to the parameter of that name, which must
    exist (the wrappers take no [**kwargs]) and must still be empty. *)
Fixpoint keyword_slot (k : string) (v : value) (sl : slots)
  : bind_failure + slots :=
  match sl with
  | [] => inl (UnexpectedKeyword k)
  | (p, cur) :: rest =>
      if decide (p_name p = k) then
        match cur with
        | Some _ => inl (MultipleValues k)
        | None => inr ((p, Some v) :: rest)
        end
      else
        match keyword_slot k v rest with
        | inl e => inl e
        | inr rest' => inr ((p, cur) :: rest')
        end
  end.

Fixpoint keyword_slots (kw : kwargs) (sl : slots) : bind_failure + slots :=
  match kw with
  | [] => inr sl
  | (k, v) :: kw' =>
      match keyword_slot k v sl with
      | inl e => inl e
      | inr sl' => keyword_slots kw' sl'
      end
  end.

(** Parameters left empty take their default; one without a default is a
    missing argument. *)
Fixpoint default_slots (sl : slots) : bind_failure + list value :=
  match sl with
  | [] => inr []
  | (p, given) :: rest =>
      match given, p_default p with
      | Some v, _ | None, Some v =>
          match default_slots rest with
          | inl e => inl e
          | inr vs => inr (v :: vs)
          end
      | None, None => inl (MissingArgument (p_name p))
      end
  end.

(** Binding of a call's arguments to a signature without [*args] and
    [**kwargs]: the values of the parameters, in the order of the
    signature. *)
Definition bind_args (ps : list param) (pos : list value) (kw : kwargs)
  : bind_failure + list value :=
  match keyword_slots kw (positional_slots ps pos) with
  | inl e => inl e
  | inr sl =>
      if decide (length ps < length pos)
      then inl (TooManyPositional (length pos))
      else default_slots sl
  end.

(** A call supplies an argument the signature has no parameter for: more
    positional arguments than parameters, or a keyword that names none. *)
Definition extra_argument (ps : list param) (pos : list value) (kw : kwargs)
  : Prop :=
  length ps < length pos ∨ Exists (λ kv, kv.1 ∉ p_name <$> ps) kw.

(** The slots of a call seen as a whole: a parameter a positional argument
    reaches holds that argument, any other holds what the keywords [given]
    say of its name. [bind_args] builds this list one keyword at a time
    (see [keyword_slots_view]). *)
Fixpoint slot_view (ps : list param) (pos : list value)
    (given : gmap string value) : slots :=
  match ps, pos with
  | [], _ => []
  | p :: ps', [] => (p, given !! p_name p) :: slot_view ps' [] given
  | p :: ps', v :: pos' => (p, Some v) :: slot_view ps' pos' given
  end.

(** *** The state a call runs in *)

Section Runtime.
Context {World : Type}.

(** What calling an object defined outside this file does: from the
    arguments and the state of the runtime to an outcome and a state. *)
Definition callable : Type :=
  list value → kwargs → World → outcome * World.

(** The calls this file's code issues, in order. *)
Record call_record : Type :=
  Call { callee : string; positional : list value; keywords : kwargs }.

Record state : Type := State { world : World; calls : list call_record }.

Definition M (A : Type) : Type := state → result A * state.

Definition raise {A : Type} (e : exn) : M A := λ s, (Raises e, s).

(** The call expression [name(pos, **kw)], where the global [name] is
    bound to [f]. *)
Definition invoke (name : string) (f : callable)
    (pos : list value) (kw : kwargs) : M value :=
  λ s,
    let '(r, w) := f pos kw (world s) in
    (r, {| world := w; calls := calls s ++ [Call name pos kw] |}).

(** The result of a call of this file agrees with that of a call made
    outside it: same outcome, and the runtime left in the same state. *)
Definition agrees (r : outcome * state) (d : outcome * World) : Prop :=
  r.1 = d.1 ∧ world r.2 = d.2.

(** A function object made by [def]. *)
Record pyfunction : Type :=
  Function {
    fn_name : string;
    fn_doc : option string;
    fn_params : list param;
    fn_code : list value → M value
  }.

(** Calling a function object: bind the arguments, then run the body. *)
Definition call (f : pyfunction) (pos : list value) (kw : kwargs)
  : M value :=
  match bind_args (fn_params f) pos kw with
  | inl why => raise (BindError why)
  | inr args => fn_code f args
  end.

(** The interpreter never runs a body with the wrong number of locals
    (see [bind_args_length]); the bodies below are total all the same. *)
Definition bad_frame {A : Type} : M A :=
  raise (Raised "SystemError" VNone).

Definition body2 (f : value → value → M value) (args : list value)
  : M value :=
  match args with
  | [x; y] => f x y
  | _ => bad_frame
  end.

Definition body3 (f : value → value → value → M value)
    (args : list value) : M value :=
  match args with
  | [x; y; z] => f x y z
  | _ => bad_frame
  end.
End Runtime.

Arguments callable : clear implicits.
Arguments state : clear implicits.
Arguments pyfunction : clear implicits.
Arguments M : clear implicits.

End Py.

Import Py.

(** ** The three wrappers *)

Module numpy_ops.

(** [np_utils.AliasOf], the [link] argument of [np_doc]. *)
Inductive link : Type :=
| AliasOf (target : string).

Section Wrappers.
Context {World : Type}.

(** [amax], [amin] and [around] are globals of the module that no
    statement of the file defines: the wildcard imports bring them. *)
Variables amax amin around : callable World.

(** [np_utils.np_doc(name, link=...)] is a documentation decorator: it
    is applied to the function object a [def] makes and its result is
    bound to the name. *)
Variable np_doc : string → link → pyfunction World → pyfunction World.

(** It rewrites [__doc__] and leaves signature and code alone. *)
Hypothesis np_doc_code : ∀ name l f,
  fn_params (np_doc name l f) = fn_params f ∧
  fn_code (np_doc name l f) = fn_code f.

Definition max_params : list param :=
  [Param "a" None; Param "axis" (Some VNone); Param "keepdims" (Some VNone)].

Definition max_body (a axis keepdims : value) : M World value :=
  invoke "amax" amax [a] [("axis", axis); ("keepdims", keepdims)].

Definition max : pyfunction World :=
  np_doc "max" (AliasOf "maximum")
    (Function "max" None max_params (body3 max_body)).

Definition min_params : list param :=
  [Param "a" None; Param "axis" (Some VNone); Param "keepdims" (Some VNone)].

Definition min_body (a axis keepdims : value) : M World value :=
  invoke "amin" amin [a] [("axis", axis); ("keepdims", keepdims)].

Definition min : pyfunction World :=
  np_doc "min" (AliasOf "minimum")
    (Function "min" None min_params (body3 min_body)).

Definition round_params : list param :=
  [Param "a" None; Param "decimals" (Some (VInt 0))].

Definition round_body (a decimals : value) : M World value :=
  invoke "around" around [a] [("decimals", decimals)].

Definition round : pyfunction World :=
  np_doc "round" (AliasOf "around")
    (Function "round" None round_params (body2 round_body)).

End Wrappers.

End numpy_ops.

(** ** The module body: imports and definitions *)

Module Namespace.

Section Interp.
(** The function objects the [def]s of the file make. *)
Context {F : Type}.

Inductive object : Type :=
| Ext (id : nat)
| Fun (f : F).

(** A loaded module: its attributes, and [__all__] when it defines it.
    For a package the attributes include its loaded submodules. *)
Record pymodule : Type :=
  PyModule { mod_dict : gmap string object; mod_all : option (list string) }.

Inductive import_error : Type :=
| ModuleNotFoundError (m : string)
| ImportError (m name : string)
| AttributeError (m name : string).

Inductive stmt : Type :=
| ImportFrom (m name asname : string)
| ImportStar (m : string)
| Def (name : string) (f : F).

Definition is_public (n : string) : bool := negb (String.prefix "_" n).

(** The names [from m import *] binds: [__all__] when there is one,
    otherwise every attribute whose name does not start with [_]. *)
Definition star_names (md : pymodule) : list string :=
  match mod_all md with
  | Some names => names
  | None => filter (λ n, is_public n = true) (map_to_list (mod_dict md)).*1
  end.

Fixpoint bind_star (m : string) (md : pymodule) (names : list string)
    (ns : gmap string object) : import_error + gmap string object :=
  match names with
  | [] => inr ns
  | n :: rest =>
      match mod_dict md !! n with
      | None => inl (AttributeError m n)
      | Some o => bind_star m md rest (<[n := o]> ns)
      end
  end.

Definition exec_stmt (env : gmap string pymodule)
    (ns : gmap string object) (st : stmt)
  : import_error + gmap string object :=
  match st with
  | ImportFrom m name asname =>
      match env !! m with
      | None => inl (ModuleNotFoundError m)
      | Some md =>
          match mod_dict md !! name with
          | None => inl (ImportError m name)
          | Some o => inr (<[asname := o]> ns)
          end
      end
  | ImportStar m =>
      match env !! m with
      | None => inl (ModuleNotFoundError m)
      | Some md => bind_star m md (star_names md) ns
      end
  | Def name f => inr (<[name := Fun f]> ns)
  end.

Fixpoint exec_block (env : gmap string pymodule) (body : list stmt)
    (ns : gmap string object) : import_error + gmap string object :=
  match body with
  | [] => inr ns
  | st :: rest =>
      match exec_stmt env ns st with
      | inl e => inl e
      | inr ns' => exec_block env rest ns'
      end
  end.

(** Whether a statement assigns the name [n]. *)
Definition assigns (env : gmap string pymodule) (st : stmt) (n : string)
  : bool :=
  match st with
  | ImportFrom _ _ asname => bool_decide (asname = n)
  | ImportStar m =>
      match env !! m with
      | Some md => bool_decide (n ∈ star_names md)
      | None => false
      end
  | Def name _ => bool_decide (name = n)
  end.

(** The last statement of a block that assigns [n]. *)
Fixpoint last_binder (env : gmap string pymodule) (body : list stmt)
    (n : string) : option stmt :=
  match body with
  | [] => None
  | st :: rest =>
      match last_binder env rest n with
      | Some st' => Some st'
      | None => if assigns env st n then Some st else None
      end
  end.


Definition source_object (env : gmap string pymodule) (m name : string)
  : option object :=
  md ← env !! m; mod_dict md !! name.

(** Lines 168-199 of the file. *)
Definition module_body (fmax fmin fround : F) : list stmt :=
  [ ImportFrom "__future__" "absolute_import" "absolute_import";
    ImportFrom "__future__" "division" "division";
    ImportFrom "__future__" "print_function" "print_function";
    ImportFrom "tensorflow.python.ops.array_ops" "newaxis" "newaxis";
    ImportFrom "tensorflow.python.ops.numpy_ops" "np_random" "random";
    ImportFrom "tensorflow.python.ops.numpy_ops" "np_utils" "np_utils";
    ImportStar "tensorflow.python.ops.numpy_ops.np_array_ops";
    ImportFrom "tensorflow.python.ops.numpy_ops.np_arrays" "ndarray" "ndarray";
    ImportStar "tensorflow.python.ops.numpy_ops.np_dtypes";
    ImportStar "tensorflow.python.ops.numpy_ops.np_math_ops";
    ImportFrom "tensorflow.python.ops.numpy_ops.np_utils" "finfo" "finfo";
    ImportFrom "tensorflow.python.ops.numpy_ops.np_utils"
      "promote_types" "promote_types";
    ImportFrom "tensorflow.python.ops.numpy_ops.np_utils"
      "result_type" "result_type";
    Def "max" fmax;
    Def "min" fmin;
    Def "round" fround ].

Definition exec_module (env : gmap string pymodule)
    (fmax fmin fround : F) : import_error + gmap string object :=
  exec_block env (module_body fmax fmin fround) ∅.



Definition star_names_of (env : gmap string pymodule) (m : string)
  : list string :=
  from_option star_names [] (env !! m).


(** The object a statement that assigns [n] binds it to. *)
Definition bound_object (env : gmap string pymodule) (st : stmt) (n : string)
  : option object :=
  match st with
  | ImportFrom m name _ => source_object env m name
  | ImportStar m => source_object env m n
  | Def _ f => Some (Fun f)
  end.



End Interp.

Arguments object : clear implicits.
Arguments pymodule : clear implicits.
Arguments stmt : clear implicits.

End Namespace.

(** ** A small runtime to run the definitions on *)

Module Demo.
Import numpy_ops Namespace.

(** The state of the runtime: the number of reductions it has run. *)
Definition runtime : Type := nat.

Definition ints (vs : list value) : list Z :=
  omap (λ v, match v with VInt n => Some n | _ => None end) vs.

(** A reduction over a one-dimensional array given as a tuple of
    integers; the only axes it has are [None] and [0]. *)
Definition reduce (pick : Z → Z → Z) : callable runtime :=
  λ pos kw w,
    match pos, kw with
    | [VTuple (VInt x :: rest)], [("axis", axis); ("keepdims", _)] =>
        match axis with
        | VNone | VInt 0 => (Returns (VInt (foldr pick x (ints rest))), S w)
        | _ => (Raises (Raised "ValueError" axis), w)
        end
    | _, _ => (Raises (Raised "TypeError" VNone), w)
    end.

Definition amax : callable runtime := reduce Z.max.
Definition amin : callable runtime := reduce Z.min.

(** Rounding of integers: nothing to do for [decimals >= 0]. *)
Definition around : callable runtime :=
  λ pos kw w,
    match pos, kw with
    | [VInt n], [("decimals", VInt d)] =>
        if decide (0 ≤ d)%Z then (Returns (VInt n), S w)
        else (Returns (VInt (n / 10 ^ (- d) * 10 ^ (- d))), S w)
    | _, _ => (Raises (Raised "TypeError" VNone), w)
    end.

Definition np_doc (name : string) (l : link) (f : pyfunction runtime)
  : pyfunction runtime :=
  let 'AliasOf target := l in
  {| fn_name := fn_name f;
     fn_doc := Some ("TensorFlow variant of NumPy's `" +:+ name +:+
                     "`. See the NumPy documentation for `" +:+ target +:+ "`.");
     fn_params := fn_params f;
     fn_code := fn_code f |}.

Definition max : pyfunction runtime := numpy_ops.max amax np_doc.
Definition min : pyfunction runtime := numpy_ops.min amin np_doc.
Definition round : pyfunction runtime := numpy_ops.round around np_doc.

Definition s0 : state runtime := {| world := 0; calls := [] |}.

Definition vec : value := VTuple [VInt 3; VInt 7; VInt 5].

Definition plain (bindings : list (string * nat))
  : pymodule (pyfunction runtime) :=
  PyModule (list_to_map (prod_map id Ext <$> bindings)) None.

(** The modules the file imports from, each with a few of its names. *)
Definition env : gmap string (pymodule (pyfunction runtime)) :=
  list_to_map
    [ ("__future__",
        plain [("absolute_import", 1); ("division", 2); ("print_function", 3)]);
      ("tensorflow.python.ops.array_ops",
        plain [("newaxis", 4); ("reshape", 5)]);
      ("tensorflow.python.ops.numpy_ops",
        plain [("np_random", 10); ("np_utils", 11)]);
      ("tensorflow.python.ops.numpy_ops.np_array_ops",
        plain [("zeros", 20); ("amax", 21); ("amin", 22); ("around", 23);
               ("_reduce", 24)]);
      ("tensorflow.python.ops.numpy_ops.np_arrays",
        plain [("ndarray", 30)]);
      ("tensorflow.python.ops.numpy_ops.np_dtypes",
        plain [("float32", 40); ("int32", 41)]);
      ("tensorflow.python.ops.numpy_ops.np_math_ops",
        plain [("add", 50); ("maximum", 51); ("_scalar", 52)]);
      ("tensorflow.python.ops.numpy_ops.np_utils",
        plain [("finfo", 60); ("promote_types", 61); ("result_type", 62);
               ("np_doc", 63)]) ].

(** The namespace the statements of the file leave in [env]. *)
Definition ns : gmap string (object (pyfunction runtime)) :=
  Eval vm_compute in
    match exec_module env max min round with
    | inr m => m
    | inl _ => ∅
    end.
(** The same modules, with [np_math_ops] also bringing a [max] and an
    [ndarray] of its own. *)
Definition env_clash : gmap string (pymodule (pyfunction runtime)) :=
  <["tensorflow.python.ops.numpy_ops.np_math_ops" :=
      plain [("add", 50); ("maximum", 51); ("max", 53); ("ndarray", 54)]]> env.


Definition ns_clash : gmap string (object (pyfunction runtime)) :=
  Eval vm_compute in
    match exec_module env_clash max min round with
    | inr m => m
    | inl _ => ∅
    end.
End Demo.

(** * Properties *)

(** ** Argument binding *)

Section BindFacts.
Implicit Types (ps : list param) (sl : slots) (pos : list value) (kw : kwargs).

Lemma positional_slots_params ps pos : (positional_slots ps pos).*1 = ps.
Proof.
  revert pos. induction ps as [|p ps IH]; intros [|v pos]; simpl; f_equal; auto.
Qed.

Lemma keyword_slot_params k v sl sl' :
  keyword_slot k v sl = inr sl' → sl'.*1 = sl.*1.
Proof.
  revert sl'. induction sl as [|[p cur] rest IH]; intros sl'; simpl; [done|].
  destruct (decide (p_name p = k)).
  - destruct cur; [done|]. intros [= <-]. done.
  - destruct (keyword_slot k v rest) as [e|rest'] eqn:E; [done|].
    intros [= <-]. simpl. f_equal. by apply IH.
Qed.

Lemma keyword_slots_params kw sl sl' :
  keyword_slots kw sl = inr sl' → sl'.*1 = sl.*1.
Proof.
  revert sl. induction kw as [|[k v] kw IH]; intros sl; simpl.
  - by intros [= <-].
  - destruct (keyword_slot k v sl) as [e|sl1] eqn:E; [done|].
    intros H. rewrite (IH _ H). by eapply keyword_slot_params.
Qed.

Lemma default_slots_length sl vs :
  default_slots sl = inr vs → length vs = length sl.
Proof.
  revert vs. induction sl as [|[p given] rest IH]; intros vs; simpl.
  - by intros [= <-].
  - destruct given as [v|]; [|destruct (p_default p) as [v|]; [|done]];
      (destruct (default_slots rest) as [e|vs'] eqn:E; [done|]);
      intros [= <-]; simpl; f_equal; by apply IH.
Qed.

(** A call that binds gives every parameter of the signature one value. *)
Lemma bind_args_length ps pos kw vs :
  bind_args ps pos kw = inr vs → length vs = length ps.
Proof.
  unfold bind_args.
  destruct (keyword_slots kw (positional_slots ps pos)) as [e|sl] eqn:E; [done|].
  destruct (decide (length ps < length pos)); [done|].
  intros H. rewrite (default_slots_length _ _ H).
  apply keyword_slots_params in E. rewrite positional_slots_params in E.
  rewrite <- E. by rewrite length_fmap.
Qed.

Lemma keyword_slot_unknown k v sl :
  k ∉ p_name <$> sl.*1 → keyword_slot k v sl = inl (UnexpectedKeyword k).
Proof.
  induction sl as [|[p cur] rest IH]; simpl; [done|].
  intros H. apply not_elem_of_cons in H as [Hne Hrest].
  destruct (decide (p_name p = k)); [congruence|]. by rewrite IH.
Qed.

Lemma keyword_slots_unknown kw sl :
  Exists (λ kv, kv.1 ∉ p_name <$> sl.*1) kw →
  ∃ why, keyword_slots kw sl = inl why.
Proof.
  revert sl. induction kw as [|[k v] kw IH]; intros sl H.
  - by apply Exists_nil in H.
  - simpl. destruct (keyword_slot k v sl) as [e|sl1] eqn:E; [by eexists|].
    apply Exists_cons in H as [H|H].
    + simpl in H. by rewrite (keyword_slot_unknown _ _ _ H) in E.
    + apply IH. by rewrite (keyword_slot_params _ _ _ _ E).
Qed.

(** An argument the signature has no parameter for makes binding fail. *)
Lemma bind_args_extra ps pos kw :
  extra_argument ps pos kw → ∃ why, bind_args ps pos kw = inl why.
Proof.
  intros [Hlen|Hkw]; unfold bind_args.
  - destruct (keyword_slots kw (positional_slots ps pos)); [by eexists|].
    destruct (decide (length ps < length pos)); [by eexists|done].
  - destruct (keyword_slots_unknown kw (positional_slots ps pos)) as [why ->];
      [|by eexists].
    by rewrite positional_slots_params.
Qed.

Lemma bind_args_3 p1 p2 p3 pos kw vs :
  bind_args [p1; p2; p3] pos kw = inr vs → ∃ x y z, vs = [x; y; z].
Proof.
  intros H. apply bind_args_length in H.
  destruct vs as [|x [|y [|z [|? ?]]]]; try done. by exists x, y, z.
Qed.

Lemma bind_args_2 p1 p2 pos kw vs :
  bind_args [p1; p2] pos kw = inr vs → ∃ x y, vs = [x; y].
Proof.
  intros H. apply bind_args_length in H.
  destruct vs as [|x [|y [|? ?]]]; try done. by exists x, y.
Qed.

End BindFacts.

(** ** The wrappers *)

Section WrapperFacts.
Import numpy_ops.
Context {World : Type}.
Variables amax amin around : callable World.
Variable np_doc : string → link → pyfunction World → pyfunction World.
Hypothesis np_doc_code : ∀ name l f,
  fn_params (np_doc name l f) = fn_params f ∧
  fn_code (np_doc name l f) = fn_code f.

Local Abbreviation max := (numpy_ops.max amax np_doc).
Local Abbreviation min := (numpy_ops.min amin np_doc).
Local Abbreviation round := (numpy_ops.round around np_doc).
Implicit Types (pos : list value) (kw : kwargs) (s : state World).
Implicit Types (a axis keepdims decimals : value).

Lemma call_decorated name l f pos kw :
  call (np_doc name l f) pos kw = call f pos kw.
Proof.
  unfold call. destruct (np_doc_code name l f) as [-> ->]. done.
Qed.

Lemma invoke_agrees name (f : callable World) pos kw s :
  agrees (invoke name f pos kw s) (f pos kw (world s)).
Proof.
  unfold agrees, invoke. by destruct (f pos kw (world s)).
Qed.

Lemma invoke_outcome name (f : callable World) pos kw s :
  (invoke name f pos kw s).1 = (f pos kw (world s)).1.
Proof.
  unfold invoke. by destruct (f pos kw (world s)).
Qed.

Lemma invoke_state name (f : callable World) pos kw s :
  (invoke name f pos kw s).2 =
  State (f pos kw (world s)).2 (calls s ++ [Call name pos kw]).
Proof.
  unfold invoke. by destruct (f pos kw (world s)).
Qed.

Lemma call_max_bound pos kw a axis keepdims :
  bind_args max_params pos kw = inr [a; axis; keepdims] →
  call max pos kw =
  invoke "amax" amax [a] [("axis", axis); ("keepdims", keepdims)].
Proof.
  intros H. unfold numpy_ops.max. rewrite call_decorated.
  unfold call. simpl. by rewrite H.
Qed.

Lemma call_min_bound pos kw a axis keepdims :
  bind_args min_params pos kw = inr [a; axis; keepdims] →
  call min pos kw =
  invoke "amin" amin [a] [("axis", axis); ("keepdims", keepdims)].
Proof.
  intros H. unfold numpy_ops.min. rewrite call_decorated.
  unfold call. simpl. by rewrite H.
Qed.

Lemma call_round_bound pos kw a decimals :
  bind_args round_params pos kw = inr [a; decimals] →
  call round pos kw = invoke "around" around [a] [("decimals", decimals)].
Proof.
  intros H. unfold numpy_ops.round. rewrite call_decorated.
  unfold call. simpl. by rewrite H.
Qed.

Lemma call_unbound (f : pyfunction World) name l pos kw why s :
  bind_args (fn_params f) pos kw = inl why →
  call (np_doc name l f) pos kw s = (Raises (BindError why), s).
Proof.
  intros H. rewrite call_decorated. unfold call. by rewrite H.
Qed.

(** C1. For every call of [max] that supplies [a], [axis] and [keepdims]
    (by position, by keyword or by default), the wrapper returns or raises
    exactly what [amax(a, axis=axis, keepdims=keepdims)] returns or raises
    in the same state, and leaves the runtime as that call leaves it. *)
Theorem max_same_as_amax pos kw a axis keepdims s :
  bind_args max_params pos kw = inr [a; axis; keepdims] →
  agrees (call max pos kw s)
         (amax [a] [("axis", axis); ("keepdims", keepdims)] (world s)).
Proof.
  intros H. rewrite (call_max_bound _ _ _ _ _ H). apply invoke_agrees.
Qed.

(** C2. For every call of [min] that supplies [a], [axis] and [keepdims],
    the wrapper returns or raises exactly what
    [amin(a, axis=axis, keepdims=keepdims)] returns or raises in the same
    state, and leaves the runtime as that call leaves it. *)
Theorem min_same_as_amin pos kw a axis keepdims s :
  bind_args min_params pos kw = inr [a; axis; keepdims] →
  agrees (call min pos kw s)
         (amin [a] [("axis", axis); ("keepdims", keepdims)] (world s)).
Proof.
  intros H. rewrite (call_min_bound _ _ _ _ _ H). apply invoke_agrees.
Qed.

(** C3. For every call of [round] that supplies [a] and [decimals], the
    wrapper returns or raises exactly what [around(a, decimals=decimals)]
    does; and [round(a)], with [decimals] omitted, does what
    [around(a, decimals=0)] does. *)
Theorem round_same_as_around :
  (∀ pos kw a decimals s,
     bind_args round_params pos kw = inr [a; decimals] →
     agrees (call round pos kw s)
            (around [a] [("decimals", decimals)] (world s))) ∧
  (∀ a s,
     agrees (call round [a] [] s)
            (around [a] [("decimals", VInt 0)] (world s))).
Proof.
  split.
  - intros pos kw a decimals s H.
    rewrite (call_round_bound _ _ _ _ H). apply invoke_agrees.
  - intros a s. rewrite (call_round_bound [a] [] a (VInt 0)); [|done].
    apply invoke_agrees.
Qed.

(** C4. On every call that fits the signature, a wrapper raises an
    exception exactly when its delegate raises it on the forwarded
    arguments, and then it is that very exception: the wrappers raise
    nothing of their own and translate nothing. *)
Theorem wrapper_raises_iff_delegate_raises :
  (∀ pos kw a axis keepdims s e,
     bind_args max_params pos kw = inr [a; axis; keepdims] →
     (call max pos kw s).1 = Raises e ↔
     (amax [a] [("axis", axis); ("keepdims", keepdims)] (world s)).1
       = Raises e) ∧
  (∀ pos kw a axis keepdims s e,
     bind_args min_params pos kw = inr [a; axis; keepdims] →
     (call min pos kw s).1 = Raises e ↔
     (amin [a] [("axis", axis); ("keepdims", keepdims)] (world s)).1
       = Raises e) ∧
  (∀ pos kw a decimals s e,
     bind_args round_params pos kw = inr [a; decimals] →
     (call round pos kw s).1 = Raises e ↔
     (around [a] [("decimals", decimals)] (world s)).1 = Raises e).
Proof.
  split; [|split].
  - intros pos kw a axis keepdims s e H.
    rewrite (call_max_bound _ _ _ _ _ H).
    rewrite !invoke_outcome. done.
  - intros pos kw a axis keepdims s e H.
    rewrite (call_min_bound _ _ _ _ _ H).
    rewrite !invoke_outcome. done.
  - intros pos kw a decimals s e H.
    rewrite (call_round_bound _ _ _ _ H).
    rewrite !invoke_outcome. done.
Qed.

(** C5. A call of a wrapper either does not fit the signature, and then
    changes nothing, or issues exactly one call, to its delegate with the
    forwarded arguments, and leaves the runtime in the state that call
    leaves it in. *)
Theorem wrapper_effect_is_one_delegate_call pos kw s :
  match bind_args max_params pos kw with
  | inl _ => (call max pos kw s).2 = s
  | inr args => ∃ a axis keepdims, args = [a; axis; keepdims] ∧
      let fwd := [("axis", axis); ("keepdims", keepdims)] in
      (call max pos kw s).2 =
      State (amax [a] fwd (world s)).2 (calls s ++ [Call "amax" [a] fwd])
  end ∧
  match bind_args min_params pos kw with
  | inl _ => (call min pos kw s).2 = s
  | inr args => ∃ a axis keepdims, args = [a; axis; keepdims] ∧
      let fwd := [("axis", axis); ("keepdims", keepdims)] in
      (call min pos kw s).2 =
      State (amin [a] fwd (world s)).2 (calls s ++ [Call "amin" [a] fwd])
  end ∧
  match bind_args round_params pos kw with
  | inl _ => (call round pos kw s).2 = s
  | inr args => ∃ a decimals, args = [a; decimals] ∧
      let fwd := [("decimals", decimals)] in
      (call round pos kw s).2 =
      State (around [a] fwd (world s)).2 (calls s ++ [Call "around" [a] fwd])
  end.
Proof.
  split; [|split].
  - destruct (bind_args max_params pos kw) as [why|args] eqn:E.
    + unfold numpy_ops.max. by erewrite call_unbound.
    + destruct (bind_args_3 _ _ _ _ _ _ E) as (a & axis & keepdims & ->).
      exists a, axis, keepdims. split; [done|].
      rewrite (call_max_bound _ _ _ _ _ E). apply invoke_state.
  - destruct (bind_args min_params pos kw) as [why|args] eqn:E.
    + unfold numpy_ops.min. by erewrite call_unbound.
    + destruct (bind_args_3 _ _ _ _ _ _ E) as (a & axis & keepdims & ->).
      exists a, axis, keepdims. split; [done|].
      rewrite (call_min_bound _ _ _ _ _ E). apply invoke_state.
  - destruct (bind_args round_params pos kw) as [why|args] eqn:E.
    + unfold numpy_ops.round. by erewrite call_unbound.
    + destruct (bind_args_2 _ _ _ _ _ E) as (a & decimals & ->).
      exists a, decimals. split; [done|].
      rewrite (call_round_bound _ _ _ _ E). apply invoke_state.
Qed.

(** C8. An omitted [axis] or [keepdims] is [None], and [None] is what
    the delegate receives: [max(a)] does what
    [amax(a, axis=None, keepdims=None)] does, likewise with only one of
    the two omitted, and the same for [min] and [amin]. *)
Theorem omitted_arguments_default_to_None a s :
  agrees (call max [a] [] s)
         (amax [a] [("axis", VNone); ("keepdims", VNone)] (world s)) ∧
  (∀ axis, agrees (call max [a; axis] [] s)
         (amax [a] [("axis", axis); ("keepdims", VNone)] (world s))) ∧
  (∀ keepdims, agrees (call max [a] [("keepdims", keepdims)] s)
         (amax [a] [("axis", VNone); ("keepdims", keepdims)] (world s))) ∧
  agrees (call min [a] [] s)
         (amin [a] [("axis", VNone); ("keepdims", VNone)] (world s)) ∧
  (∀ axis, agrees (call min [a; axis] [] s)
         (amin [a] [("axis", axis); ("keepdims", VNone)] (world s))) ∧
  (∀ keepdims, agrees (call min [a] [("keepdims", keepdims)] s)
         (amin [a] [("axis", VNone); ("keepdims", keepdims)] (world s))).
Proof.
  split; [|split; [intros axis|split; [intros keepdims|
    split; [|split; [intros axis|intros keepdims]]]]].
  - rewrite (call_max_bound [a] [] a VNone VNone); [apply invoke_agrees|done].
  - rewrite (call_max_bound [a; axis] [] a axis VNone);
      [apply invoke_agrees|done].
  - rewrite (call_max_bound [a] [("keepdims", keepdims)] a VNone keepdims);
      [apply invoke_agrees|done].
  - rewrite (call_min_bound [a] [] a VNone VNone); [apply invoke_agrees|done].
  - rewrite (call_min_bound [a; axis] [] a axis VNone);
      [apply invoke_agrees|done].
  - rewrite (call_min_bound [a] [("keepdims", keepdims)] a VNone keepdims);
      [apply invoke_agrees|done].
Qed.

(** C9. A call of [max] or [min] with an argument beyond [a], [axis] and
    [keepdims], and a call of [round] with one beyond [a] and [decimals]
    (a further positional argument, or a keyword such as [out], [initial]
    or [where]), raises [TypeError] and leaves the state as it was: no call
    has been issued, the delegate has not run. *)
Theorem extra_argument_is_TypeError pos kw s :
  (extra_argument max_params pos kw →
   ∃ e, call max pos kw s = (Raises e, s) ∧ exn_kind e = "TypeError") ∧
  (extra_argument min_params pos kw →
   ∃ e, call min pos kw s = (Raises e, s) ∧ exn_kind e = "TypeError") ∧
  (extra_argument round_params pos kw →
   ∃ e, call round pos kw s = (Raises e, s) ∧ exn_kind e = "TypeError").
Proof.
  repeat split; intros [why H]%bind_args_extra; exists (BindError why);
    (split; [|done]).
  - unfold numpy_ops.max. by erewrite call_unbound.
  - unfold numpy_ops.min. by erewrite call_unbound.
  - unfold numpy_ops.round. by erewrite call_unbound.
Qed.

(** C10. The outcome of a wrapper depends on the state only through its
    delegate: for one and the same call in two states, if the delegate's
    outcome on the forwarded arguments is the same in both, so is the
    wrapper's. *)
Theorem wrapper_deterministic_in_delegate pos kw s1 s2 :
  ((∀ a axis keepdims,
      bind_args max_params pos kw = inr [a; axis; keepdims] →
      (amax [a] [("axis", axis); ("keepdims", keepdims)] (world s1)).1 =
      (amax [a] [("axis", axis); ("keepdims", keepdims)] (world s2)).1) →
   (call max pos kw s1).1 = (call max pos kw s2).1) ∧
  ((∀ a axis keepdims,
      bind_args min_params pos kw = inr [a; axis; keepdims] →
      (amin [a] [("axis", axis); ("keepdims", keepdims)] (world s1)).1 =
      (amin [a] [("axis", axis); ("keepdims", keepdims)] (world s2)).1) →
   (call min pos kw s1).1 = (call min pos kw s2).1) ∧
  ((∀ a decimals,
      bind_args round_params pos kw = inr [a; decimals] →
      (around [a] [("decimals", decimals)] (world s1)).1 =
      (around [a] [("decimals", decimals)] (world s2)).1) →
   (call round pos kw s1).1 = (call round pos kw s2).1).
Proof.
  split; [|split]; intros Hd.
  - destruct (bind_args max_params pos kw) as [why|args] eqn:E.
    + unfold numpy_ops.max. by erewrite !call_unbound.
    + destruct (bind_args_3 _ _ _ _ _ _ E) as (a & axis & keepdims & ->).
      rewrite (call_max_bound _ _ _ _ _ E).
      rewrite !invoke_outcome.
      by apply Hd.
  - destruct (bind_args min_params pos kw) as [why|args] eqn:E.
    + unfold numpy_ops.min. by erewrite !call_unbound.
    + destruct (bind_args_3 _ _ _ _ _ _ E) as (a & axis & keepdims & ->).
      rewrite (call_min_bound _ _ _ _ _ E).
      rewrite !invoke_outcome.
      by apply Hd.
  - destruct (bind_args round_params pos kw) as [why|args] eqn:E.
    + unfold numpy_ops.round. by erewrite !call_unbound.
    + destruct (bind_args_2 _ _ _ _ _ E) as (a & decimals & ->).
      rewrite (call_round_bound _ _ _ _ E).
      rewrite !invoke_outcome.
      by apply Hd.
Qed.

End WrapperFacts.

(** ** The module namespace *)

Section NamespaceFacts.
Import Namespace.
Context {F : Type}.
Implicit Types (env : gmap string (pymodule F)) (ns : gmap string (object F)).
Implicit Types (st : stmt F) (body : list (stmt F)) (n m name : string).

Lemma bind_star_lookup m (md : pymodule F) names ns ns' n :
  bind_star m md names ns = inr ns' →
  ns' !! n = if bool_decide (n ∈ names) then mod_dict md !! n else ns !! n.
Proof.
  revert ns. induction names as [|k rest IH]; intros ns; simpl.
  - by intros [= <-].
  - destruct (mod_dict md !! k) as [o|] eqn:Hk; [|done].
    intros H. rewrite (IH _ H). repeat case_bool_decide; try done.
    + exfalso. set_solver.
    + apply elem_of_cons in H1 as [->|?]; [|done].
      by rewrite lookup_insert_eq.
    + rewrite lookup_insert_ne; [done|]. set_solver.
Qed.

Lemma bind_star_defined m (md : pymodule F) names ns ns' n :
  bind_star m md names ns = inr ns' →
  n ∈ names → is_Some (mod_dict md !! n).
Proof.
  revert ns. induction names as [|k rest IH]; intros ns; simpl.
  - by intros _ ?%elem_of_nil.
  - destruct (mod_dict md !! k) as [o|] eqn:Hk; [|done].
    intros H [->|Hin]%elem_of_cons; [by eexists|]. by eapply IH.
Qed.

(** A statement leaves every name it does not assign as it was, and binds
    the ones it assigns to an object of its source. *)
Lemma exec_stmt_lookup env ns st ns' n :
  exec_stmt env ns st = inr ns' →
  ns' !! n = if assigns env st n then bound_object env st n else ns !! n.
Proof.
  destruct st as [m name asname|m|name f]; simpl.
  - unfold source_object. destruct (env !! m) as [md|]; [simpl|done].
    destruct (mod_dict md !! name) as [o|]; [|done]. intros [= <-].
    case_bool_decide as E; [subst; by rewrite lookup_insert_eq|].
    by rewrite lookup_insert_ne.
  - unfold source_object. destruct (env !! m) as [md|]; [simpl|done].
    apply bind_star_lookup.
  - intros [= <-].
    case_bool_decide as E; [subst; by rewrite lookup_insert_eq|].
    by rewrite lookup_insert_ne.
Qed.

Lemma exec_stmt_bound env ns st ns' n :
  exec_stmt env ns st = inr ns' →
  assigns env st n = true → is_Some (bound_object env st n).
Proof.
  destruct st as [m name asname|m|name f]; simpl; [| |by eexists].
  - unfold source_object. destruct (env !! m) as [md|]; [simpl|done].
    destruct (mod_dict md !! name) as [o|]; [by eexists|done].
  - unfold source_object. destruct (env !! m) as [md|]; [simpl|done].
    intros H Hn%bool_decide_eq_true. by eapply bind_star_defined.
Qed.

(** After a block, a name holds what the last statement assigning it
    bound it to. *)
Lemma exec_block_lookup env body ns ns' n :
  exec_block env body ns = inr ns' →
  ns' !! n = match last_binder env body n with
             | Some st => bound_object env st n
             | None => ns !! n
             end.
Proof.
  revert ns. induction body as [|st rest IH]; intros ns; simpl.
  - by intros [= <-].
  - destruct (exec_stmt env ns st) as [e|ns1] eqn:E; [done|].
    intros H. rewrite (IH _ H).
    destruct (last_binder env rest n); [done|].
    rewrite (exec_stmt_lookup _ _ _ _ n E). by destruct (assigns env st n).
Qed.

Lemma exec_block_bound env body ns ns' n st :
  exec_block env body ns = inr ns' →
  last_binder env body n = Some st → is_Some (bound_object env st n).
Proof.
  revert ns. induction body as [|st0 rest IH]; intros ns; simpl; [done|].
  destruct (exec_stmt env ns st0) as [e|ns1] eqn:E; [done|].
  intros H. destruct (last_binder env rest n) as [st1|] eqn:L.
  - intros [= <-]. by eapply IH.
  - destruct (assigns env st0 n) eqn:A; [|done].
    intros [= <-]. by eapply exec_stmt_bound.
Qed.


(** A statement that no later one overrides is the last binder. *)
Lemma last_binder_split env body (pre : list (stmt F)) st
    (post : list (stmt F)) n :
  body = (pre ++ st :: post)%list →
  assigns env st n = true →
  Forall (λ st', assigns env st' n = false) post →
  last_binder env body n = Some st.
Proof.
  intros -> A Hpost.
  assert (last_binder env post n = None) as Hnone.
  { induction Hpost as [|st' post' H' _ IH]; simpl; [done|].
    by rewrite IH, H'. }
  induction pre as [|st0 pre IH]; simpl.
  - by rewrite Hnone, A.
  - by rewrite IH.
Qed.

Lemma assigns_star env m n :
  assigns env (ImportStar m) n = bool_decide (n ∈ star_names_of env m).
Proof.
  unfold star_names_of. simpl. by destruct (env !! m).
Qed.


Lemma assigns_import_false env m name asname n :
  asname ≠ n → assigns env (ImportFrom m name asname) n = false.
Proof. intros H. simpl. by apply bool_decide_eq_false. Qed.

Lemma assigns_def_false env name (f : F) n :
  name ≠ n → assigns env (Def name f) n = false.
Proof. intros H. simpl. by apply bool_decide_eq_false. Qed.













End NamespaceFacts.

(** ** The properties on the small runtime *)

Ltac demo_decorator := intros ? [?] ?; split; reflexivity.

Ltac decide_closed :=
  match goal with
  | |- ?P => apply (bool_decide_unpack P); vm_compute; exact I
  end.

(** [max(vec, axis=0)] on the small runtime: the call binds, and returns
    the 7 that [amax] returns. *)
Lemma max_same_as_amax_witness :
  bind_args numpy_ops.max_params [Demo.vec] [("axis", VInt 0)]
    = inr [Demo.vec; VInt 0; VNone] ∧
  agrees (call Demo.max [Demo.vec] [("axis", VInt 0)] Demo.s0)
         (Demo.amax [Demo.vec] [("axis", VInt 0); ("keepdims", VNone)] 0) ∧
  (call Demo.max [Demo.vec] [("axis", VInt 0)] Demo.s0).1 = Returns (VInt 7).
Proof.
  split; [reflexivity|]. split; [|reflexivity].
  apply (max_same_as_amax Demo.amax Demo.np_doc);
    [demo_decorator|reflexivity].
Defined.

(** [min(vec, None, True)], all three arguments by position. *)
Lemma min_same_as_amin_witness :
  bind_args numpy_ops.min_params [Demo.vec; VNone; VBool true] []
    = inr [Demo.vec; VNone; VBool true] ∧
  agrees (call Demo.min [Demo.vec; VNone; VBool true] [] Demo.s0)
         (Demo.amin [Demo.vec] [("axis", VNone); ("keepdims", VBool true)] 0) ∧
  (call Demo.min [Demo.vec; VNone; VBool true] [] Demo.s0).1
    = Returns (VInt 3).
Proof.
  split; [reflexivity|]. split; [|reflexivity].
  apply (min_same_as_amin Demo.amin Demo.np_doc);
    [demo_decorator|reflexivity].
Defined.

(** [round(1234, decimals=-2)] and [round(1234)]. *)
Lemma round_same_as_around_witness :
  bind_args numpy_ops.round_params [VInt 1234] [("decimals", VInt (-2))]
    = inr [VInt 1234; VInt (-2)] ∧
  agrees (call Demo.round [VInt 1234] [("decimals", VInt (-2))] Demo.s0)
         (Demo.around [VInt 1234] [("decimals", VInt (-2))] 0) ∧
  agrees (call Demo.round [VInt 1234] [] Demo.s0)
         (Demo.around [VInt 1234] [("decimals", VInt 0)] 0) ∧
  (call Demo.round [VInt 1234] [("decimals", VInt (-2))] Demo.s0).1
    = Returns (VInt 1200).
Proof.
  split; [reflexivity|].
  destruct (round_same_as_around Demo.around Demo.np_doc) as [Hgiven Hdefault];
    [demo_decorator|].
  split; [by apply Hgiven|]. split; [apply Hdefault|reflexivity].
Defined.

(** [max(vec, 1)]: the array has no axis 1, [amax] raises [ValueError],
    and so does [max]. *)
Lemma wrapper_raises_iff_delegate_raises_witness :
  bind_args numpy_ops.max_params [Demo.vec; VInt 1] []
    = inr [Demo.vec; VInt 1; VNone] ∧
  (Demo.amax [Demo.vec] [("axis", VInt 1); ("keepdims", VNone)] 0).1
    = Raises (Raised "ValueError" (VInt 1)) ∧
  ((call Demo.max [Demo.vec; VInt 1] [] Demo.s0).1
     = Raises (Raised "ValueError" (VInt 1)) ↔
   (Demo.amax [Demo.vec] [("axis", VInt 1); ("keepdims", VNone)] 0).1
     = Raises (Raised "ValueError" (VInt 1))).
Proof.
  split; [reflexivity|]. split; [reflexivity|].
  destruct (wrapper_raises_iff_delegate_raises
              Demo.amax Demo.amin Demo.around Demo.np_doc) as (Hmax & _ & _);
    [demo_decorator|].
  by apply (Hmax [Demo.vec; VInt 1] [] Demo.vec (VInt 1) VNone Demo.s0).
Defined.

(** [max(vec)] logs one call of [amax]; [round(5, 0, 0)] does not bind and
    leaves the state alone. *)
Lemma wrapper_effect_is_one_delegate_call_witness :
  (call Demo.max [Demo.vec] [] Demo.s0).2 =
    State 1 [Call "amax" [Demo.vec] [("axis", VNone); ("keepdims", VNone)]] ∧
  (call Demo.round [VInt 5; VInt 0; VInt 0] [] Demo.s0).2 = Demo.s0.
Proof.
  destruct (wrapper_effect_is_one_delegate_call
              Demo.amax Demo.amin Demo.around Demo.np_doc
              ltac:(demo_decorator) [Demo.vec] [] Demo.s0) as (Hmax & _ & _).
  destruct (wrapper_effect_is_one_delegate_call
              Demo.amax Demo.amin Demo.around Demo.np_doc
              ltac:(demo_decorator) [VInt 5; VInt 0; VInt 0] [] Demo.s0)
    as (_ & _ & Hround).
  split; [|exact Hround].
  simpl in Hmax. destruct Hmax as (a & axis & keepdims & Hargs & Hstate).
  injection Hargs as <- <- <-. exact Hstate.
Defined.

(** [max(vec)] and [min(vec, keepdims=False)]. *)
Lemma omitted_arguments_default_to_None_witness :
  agrees (call Demo.max [Demo.vec] [] Demo.s0)
         (Demo.amax [Demo.vec] [("axis", VNone); ("keepdims", VNone)] 0) ∧
  agrees (call Demo.min [Demo.vec] [("keepdims", VBool false)] Demo.s0)
         (Demo.amin [Demo.vec]
            [("axis", VNone); ("keepdims", VBool false)] 0).
Proof.
  destruct (omitted_arguments_default_to_None
              Demo.amax Demo.amin Demo.np_doc ltac:(demo_decorator)
              Demo.vec Demo.s0) as (Hmax & _ & _ & _ & _ & Hmin).
  split; [exact Hmax|apply Hmin].
Defined.

(** [max(vec, out=...)] and [round(5, 0, 0)]. *)
Lemma extra_argument_is_TypeError_witness :
  extra_argument numpy_ops.max_params [Demo.vec] [("out", VRef 1)] ∧
  extra_argument numpy_ops.round_params [VInt 5; VInt 0; VInt 0] [] ∧
  (∃ e, call Demo.max [Demo.vec] [("out", VRef 1)] Demo.s0
          = (Raises e, Demo.s0) ∧ exn_kind e = "TypeError") ∧
  (∃ e, call Demo.round [VInt 5; VInt 0; VInt 0] [] Demo.s0
          = (Raises e, Demo.s0) ∧ exn_kind e = "TypeError").
Proof.
  assert (extra_argument numpy_ops.max_params [Demo.vec] [("out", VRef 1)])
    as Hout by (unfold extra_argument; decide_closed).
  assert (extra_argument numpy_ops.round_params [VInt 5; VInt 0; VInt 0] [])
    as Hthird by (unfold extra_argument; decide_closed).
  split; [exact Hout|]. split; [exact Hthird|]. split.
  - destruct (extra_argument_is_TypeError
                Demo.amax Demo.amin Demo.around Demo.np_doc
                ltac:(demo_decorator) [Demo.vec] [("out", VRef 1)] Demo.s0)
      as (Hmax & _ & _).
    exact (Hmax Hout).
  - destruct (extra_argument_is_TypeError
                Demo.amax Demo.amin Demo.around Demo.np_doc
                ltac:(demo_decorator) [VInt 5; VInt 0; VInt 0] [] Demo.s0)
      as (_ & _ & Hround).
    exact (Hround Hthird).
Defined.

(** [max(vec)] in two states of the runtime. *)
Lemma wrapper_deterministic_in_delegate_witness :
  (Demo.amax [Demo.vec] [("axis", VNone); ("keepdims", VNone)] 0).1 =
  (Demo.amax [Demo.vec] [("axis", VNone); ("keepdims", VNone)] 5).1 ∧
  (call Demo.max [Demo.vec] [] Demo.s0).1 =
  (call Demo.max [Demo.vec] [] (State 5 [])).1.
Proof.
  split; [reflexivity|].
  apply (wrapper_deterministic_in_delegate
           Demo.amax Demo.amin Demo.around Demo.np_doc
           ltac:(demo_decorator) [Demo.vec] [] Demo.s0 (State 5 [])).
  intros a axis keepdims Hargs. injection Hargs as <- <- <-. reflexivity.
Defined.




(** * Further properties *)

(** ** Which calls bind, and to what *)

Section BindSpec.
Implicit Types (ps : list param) (sl : slots) (pos : list value) (kw : kwargs).
Implicit Types (given : gmap string value) (k : string) (v : value).

Lemma elem_of_names_drop n ps k :
  k ∈ p_name <$> drop n ps → k ∈ p_name <$> ps.
Proof.
  rewrite !list_elem_of_fmap. intros (q & -> & Hq).
  exists q. split; [done|]. by apply (subseteq_drop n).
Qed.

Lemma positional_slots_view ps pos : positional_slots ps pos = slot_view ps pos ∅.
Proof.
  revert pos. induction ps as [|p ps IH]; intros [|v pos]; simpl; [done..| |].
  - by rewrite lookup_empty, IH.
  - by rewrite IH.
Qed.

Lemma slot_view_insert_fresh ps pos given k v :
  k ∉ p_name <$> drop (length pos) ps →
  slot_view ps pos (<[k:=v]> given) = slot_view ps pos given.
Proof.
  revert pos. induction ps as [|p ps IH]; intros [|v0 pos]; simpl; [done..| |].
  - intros [Hne Hrest]%not_elem_of_cons.
    rewrite lookup_insert_ne by done. f_equal. by apply (IH []).
  - intros H. f_equal. by apply IH.
Qed.

Lemma keyword_slot_view_ok ps pos given k v :
  NoDup (p_name <$> ps) →
  k ∈ p_name <$> drop (length pos) ps → given !! k = None →
  keyword_slot k v (slot_view ps pos given)
    = inr (slot_view ps pos (<[k:=v]> given)).
Proof.
  revert pos. induction ps as [|p ps IH]; intros [|v0 pos]; simpl;
    try (by intros _ ?%elem_of_nil);
    intros [Hp Hnd]%NoDup_cons Hin Hk.
  - apply elem_of_cons in Hin as [->|Hin].
    + rewrite decide_True by done. rewrite Hk, lookup_insert_eq.
      f_equal. f_equal. symmetry. by apply (slot_view_insert_fresh ps []).
    + assert (p_name p ≠ k) as Hne by (intros E; by rewrite E in Hp).
      rewrite decide_False by done.
      rewrite (IH [] Hnd Hin Hk). by rewrite lookup_insert_ne by done.
  - assert (p_name p ≠ k) as Hne.
    { intros E. apply Hp. rewrite E. by eapply elem_of_names_drop. }
    rewrite decide_False by done. by rewrite (IH pos Hnd Hin Hk).
Qed.

Lemma keyword_slot_view_inv ps pos given k v sl :
  keyword_slot k v (slot_view ps pos given) = inr sl →
  k ∈ p_name <$> drop (length pos) ps ∧ given !! k = None.
Proof.
  revert pos sl. induction ps as [|p ps IH]; intros [|v0 pos] sl; simpl;
    [done..| |].
  - destruct (decide (p_name p = k)) as [<-|Hne].
    + destruct (given !! p_name p) eqn:E; [done|].
      intros _. split; [apply list_elem_of_here|done].
    + destruct (keyword_slot k v (slot_view ps [] given)) as [e|sl1] eqn:E;
        [done|].
      intros _. destruct (IH [] _ E) as [Hin Hk].
      split; [by apply list_elem_of_further|done].
  - destruct (decide (p_name p = k)) as [<-|Hne]; [done|].
    destruct (keyword_slot k v (slot_view ps pos given)) as [e|sl1] eqn:E;
      [done|].
    intros _. by apply (IH pos _ E).
Qed.

(** The keywords of a call go through exactly when no keyword comes twice
    and each names a parameter that is still empty; the slots then hold
    what the keywords say. *)
Lemma keyword_slots_view ps pos given kw sl :
  NoDup (p_name <$> ps) →
  keyword_slots kw (slot_view ps pos given) = inr sl ↔
  NoDup kw.*1 ∧
  (∀ k, k ∈ kw.*1 →
        k ∈ p_name <$> drop (length pos) ps ∧ given !! k = None) ∧
  sl = slot_view ps pos (list_to_map kw ∪ given).
Proof.
  intros Hnd. revert given.
  induction kw as [|[k v] kw IH]; intros given; simpl.
  - rewrite (left_id_L ∅ (∪)). split.
    + intros [= <-]. split; [constructor|]. split; [|done].
      by intros k ?%elem_of_nil.
    + by intros (_ & _ & ->).
  - assert ((list_to_map kw : gmap string value) !! k = None →
            <[k:=v]> (list_to_map kw) ∪ given
              = list_to_map kw ∪ <[k:=v]> given) as Hmap.
    { intros Hfresh. rewrite <- insert_union_l. by apply insert_union_r. }
    split.
    + destruct (keyword_slot k v (slot_view ps pos given)) as [e|sl1] eqn:E;
        [done|].
      destruct (keyword_slot_view_inv _ _ _ _ _ _ E) as [Hin Hk].
      rewrite (keyword_slot_view_ok _ _ _ _ _ Hnd Hin Hk) in E.
      injection E as <-. rewrite IH. intros (Hkw & Hall & ->).
      assert (k ∉ kw.*1) as Hfresh.
      { intros Hin'. destruct (Hall _ Hin') as [_ Hl].
        by rewrite lookup_insert_eq in Hl. }
      split; [by constructor|]. split.
      * intros k' [->|Hk']%elem_of_cons; [done|].
        destruct (Hall _ Hk') as [? Hl]. split; [done|].
        rewrite lookup_insert_ne in Hl; [done|]. by intros ->.
      * by rewrite Hmap by by apply not_elem_of_list_to_map_1.
    + intros ([Hfresh Hkw]%NoDup_cons & Hall & ->).
      destruct (Hall k) as [Hin Hk]; [apply list_elem_of_here|].
      rewrite (keyword_slot_view_ok _ _ _ _ _ Hnd Hin Hk). rewrite IH.
      split; [done|]. split.
      * intros k' Hk'. destruct (Hall k') as [? Hl];
          [by apply list_elem_of_further|].
        split; [done|]. rewrite lookup_insert_ne; [done|]. by intros ->.
      * by rewrite Hmap by by apply not_elem_of_list_to_map_1.
Qed.

Lemma default_slots_view_ok ps pos given :
  (∃ vs, default_slots (slot_view ps pos given) = inr vs) ↔
  ∀ p, p ∈ drop (length pos) ps → given !! p_name p = None →
       is_Some (p_default p).
Proof.
  revert pos. induction ps as [|p ps IH]; intros [|v0 pos]; simpl.
  - split; [by intros _ p ?%elem_of_nil|by eexists].
  - split; [by intros _ p ?%elem_of_nil|by eexists].
  - specialize (IH []). simpl in IH.
    destruct (given !! p_name p) as [v|] eqn:G;
      [|destruct (p_default p) as [d|] eqn:D].
    + split.
      * intros [vs Hvs] q [->|Hq]%elem_of_cons Hnone; [congruence|].
        apply IH; [|done..].
        destruct (default_slots (slot_view ps [] given)); [done|by eexists].
      * intros H. destruct (proj2 IH) as [vs ->]; [|by eexists].
        intros q Hq. apply H. by apply list_elem_of_further.
    + split.
      * intros [vs Hvs] q [->|Hq]%elem_of_cons Hnone; [by rewrite D|].
        apply IH; [|done..].
        destruct (default_slots (slot_view ps [] given)); [done|by eexists].
      * intros H. destruct (proj2 IH) as [vs ->]; [|by eexists].
        intros q Hq. apply H. by apply list_elem_of_further.
    + split; [by intros [vs ?]|].
      intros H. destruct (H p) as [d Hd]; [apply list_elem_of_here|done|].
      congruence.
  - rewrite <- (IH pos). split.
    + intros [vs Hvs].
      destruct (default_slots (slot_view ps pos given)); [done|by eexists].
    + intros [vs ->]. by eexists.
Qed.

Lemma default_slots_view_lookup ps pos given vs i p :
  default_slots (slot_view ps pos given) = inr vs →
  ps !! i = Some p →
  vs !! i = match pos !! i with
            | Some v => Some v
            | None => match given !! p_name p with
                      | Some v => Some v
                      | None => p_default p
                      end
            end.
Proof.
  revert pos vs i. induction ps as [|q ps IH]; intros pos vs i; [done|].
  destruct pos as [|v0 pos]; simpl.
  - destruct (given !! p_name q) as [v|] eqn:G;
      [|destruct (p_default q) as [d|] eqn:D; [|done]];
      (destruct (default_slots (slot_view ps [] given)) as [e|vs'] eqn:E;
         [done|]);
      intros [= <-]; (destruct i as [|i]; simpl;
        [intros [= <-]; by rewrite ?G, ?D|]);
      intros Hp; by rewrite (IH [] vs' i E Hp).
  - destruct (default_slots (slot_view ps pos given)) as [e|vs'] eqn:E;
      [done|].
    intros [= <-]. destruct i as [|i]; simpl; [done|].
    intros Hp. by rewrite (IH pos vs' i E Hp).
Qed.

Lemma bind_args_view ps pos kw vs :
  NoDup (p_name <$> ps) →
  bind_args ps pos kw = inr vs ↔
  NoDup kw.*1 ∧
  (∀ k, k ∈ kw.*1 → k ∈ p_name <$> drop (length pos) ps) ∧
  (length pos ≤ length ps)%nat ∧
  default_slots (slot_view ps pos (list_to_map kw)) = inr vs.
Proof.
  intros Hnd. unfold bind_args. rewrite positional_slots_view. split.
  - destruct (keyword_slots kw (slot_view ps pos ∅)) as [e|sl] eqn:E; [done|].
    apply keyword_slots_view in E as (Hkw & Hall & ->); [|done].
    rewrite (right_id_L ∅ (∪)).
    destruct (decide (length ps < length pos)); [done|].
    intros H. split; [done|]. split; [|split; [lia|done]].
    intros k Hk. by apply Hall.
  - intros (Hkw & Hall & Hlen & Hvs).
    assert (keyword_slots kw (slot_view ps pos ∅)
              = inr (slot_view ps pos (list_to_map kw))) as ->.
    { apply keyword_slots_view; [done|]. rewrite (right_id_L ∅ (∪)).
      split; [done|]. split; [|done].
      intros k Hk. split; [by apply Hall|apply lookup_empty]. }
    by rewrite decide_False by lia.
Qed.

(** Which calls a signature accepts. *)
Lemma bind_args_accepts ps pos kw :
  NoDup (p_name <$> ps) →
  (∃ vs, bind_args ps pos kw = inr vs) ↔
  (length pos ≤ length ps)%nat ∧
  NoDup kw.*1 ∧
  (∀ k, k ∈ kw.*1 → k ∈ p_name <$> drop (length pos) ps) ∧
  (∀ p, p ∈ drop (length pos) ps → p_default p = None → p_name p ∈ kw.*1).
Proof.
  intros Hnd. split.
  - intros [vs (Hkw & Hall & Hlen & Hvs)%bind_args_view]; [|done].
    split; [done|]. split; [done|]. split; [done|].
    intros p Hp Hd. destruct (decide (p_name p ∈ kw.*1)) as [|Hout]; [done|].
    destruct (proj1 (default_slots_view_ok ps pos (list_to_map kw))
                (ex_intro _ vs Hvs) p Hp) as [d Hd'];
      [by apply not_elem_of_list_to_map_1|congruence].
  - intros (Hlen & Hkw & Hall & Hreq).
    destruct (proj2 (default_slots_view_ok ps pos (list_to_map kw)))
      as [vs Hvs].
    { intros p Hp Hnone%not_elem_of_list_to_map_2.
      destruct (p_default p) as [d|] eqn:D; [by eexists|].
      destruct Hnone. by apply Hreq. }
    exists vs. by apply bind_args_view.
Qed.

(** What each parameter is bound to: the positional argument at its place,
    else the keyword of its name, else its default. *)
Lemma bind_args_lookup ps pos kw vs i p :
  NoDup (p_name <$> ps) →
  bind_args ps pos kw = inr vs →
  ps !! i = Some p →
  vs !! i = match pos !! i with
            | Some v => Some v
            | None => match (list_to_map kw : gmap string value) !! p_name p with
                      | Some v => Some v
                      | None => p_default p
                      end
            end.
Proof.
  intros Hnd (_ & _ & _ & Hvs)%bind_args_view Hp; [|done].
  by apply (default_slots_view_lookup _ _ _ _ _ _ Hvs).
Qed.

(** The order of the keywords of a call does not matter. *)
Lemma bind_args_perm ps pos kw kw' vs :
  NoDup (p_name <$> ps) → kw ≡ₚ kw' →
  bind_args ps pos kw = inr vs → bind_args ps pos kw' = inr vs.
Proof.
  intros Hnd Hperm Hvs.
  destruct (proj1 (bind_args_accepts ps pos kw Hnd) (ex_intro _ vs Hvs))
    as (Hlen & Hkw & Hall & Hreq).
  assert (kw.*1 ≡ₚ kw'.*1) as Hkeys by by apply fmap_Permutation.
  destruct (proj2 (bind_args_accepts ps pos kw' Hnd)) as [vs' Hvs'].
  { split; [done|]. split; [by rewrite <- Hkeys|]. split.
    - intros k Hk. apply Hall. by rewrite Hkeys.
    - intros p Hp Hd. rewrite <- Hkeys. by apply Hreq. }
  rewrite Hvs'. f_equal. apply list_eq. intros i.
  destruct (ps !! i) as [p|] eqn:Hp.
  - rewrite (bind_args_lookup _ _ _ _ _ _ Hnd Hvs Hp).
    rewrite (bind_args_lookup _ _ _ _ _ _ Hnd Hvs' Hp).
    by rewrite (list_to_map_proper kw kw').
  - apply lookup_ge_None in Hp.
    rewrite !(proj2 (lookup_ge_None _ _)); [done|..].
    + by rewrite (bind_args_length _ _ _ _ Hvs).
    + by rewrite (bind_args_length _ _ _ _ Hvs').
Qed.

End BindSpec.

Section BindValues.
Implicit Types (ps : list param) (pos : list value) (kw : kwargs).



End BindValues.

(** ** The calls the wrappers accept *)

Section WrapperCalls.
Import numpy_ops.
Context {World : Type}.
Variables amax amin around : callable World.
Variable np_doc : string → link → pyfunction World → pyfunction World.
Hypothesis np_doc_code : ∀ name l f,
  fn_params (np_doc name l f) = fn_params f ∧
  fn_code (np_doc name l f) = fn_code f.

Local Abbreviation max := (numpy_ops.max amax np_doc).
Local Abbreviation min := (numpy_ops.min amin np_doc).
Local Abbreviation round := (numpy_ops.round around np_doc).
Implicit Types (pos : list value) (kw : kwargs) (s : state World).
Implicit Types (a axis keepdims decimals : value).

Lemma max_params_NoDup : NoDup (p_name <$> max_params).
Proof. decide_closed. Qed.

Lemma round_params_NoDup : NoDup (p_name <$> round_params).
Proof. decide_closed. Qed.

(** The general criterion, read for a signature whose only parameter
    without a default is the first. *)
Lemma fits_first_required (p0 : param) (rest : list param) pos kw :
  p_default p0 = None →
  Forall (λ p, is_Some (p_default p)) rest →
  ((length pos ≤ length (p0 :: rest))%nat ∧
   NoDup kw.*1 ∧
   (∀ k, k ∈ kw.*1 → k ∈ p_name <$> drop (length pos) (p0 :: rest)) ∧
   (∀ p, p ∈ drop (length pos) (p0 :: rest) →
         p_default p = None → p_name p ∈ kw.*1)) ↔
  ((length pos ≤ S (length rest))%nat ∧
   NoDup kw.*1 ∧
   (∀ k, k ∈ kw.*1 →
         k ∈ drop (length pos) (p_name p0 :: (p_name <$> rest))) ∧
   (pos = [] → p_name p0 ∈ kw.*1)).
Proof.
  intros H0 Hrest.
  assert (p_name <$> drop (length pos) (p0 :: rest)
          = drop (length pos) (p_name p0 :: (p_name <$> rest))) as Hnames
    by by rewrite fmap_drop.
  rewrite Hnames. simpl length.
  split; intros (Hlen & Hkw & Hall & Hreq); (split; [done|]);
    (split; [done|]); (split; [done|]).
  - intros ->. apply (Hreq p0); [apply list_elem_of_here|done].
  - intros p Hp Hd. destruct pos as [|v pos].
    + simpl in Hp. apply elem_of_cons in Hp as [->|Hp]; [by apply Hreq|].
      rewrite Forall_forall in Hrest. destruct (Hrest p Hp). congruence.
    + simpl in Hp. apply (subseteq_drop (length pos) rest) in Hp.
      rewrite Forall_forall in Hrest. destruct (Hrest p Hp). congruence.
Qed.

Lemma call_fits (f : pyfunction World) name l pos kw s :
  NoDup (p_name <$> fn_params f) →
  ((∃ args, bind_args (fn_params f) pos kw = inr args) →
   ∃ args, bind_args (fn_params f) pos kw = inr args ∧
           call (np_doc name l f) pos kw s = fn_code f args s) ∧
  (¬ (∃ args, bind_args (fn_params f) pos kw = inr args) →
   ∃ e, call (np_doc name l f) pos kw s = (Raises e, s) ∧
        exn_kind e = "TypeError").
Proof.
  intros Hnd. rewrite call_decorated by done. unfold call. split.
  - intros [args H]. exists args. by rewrite H.
  - intros H. destruct (bind_args (fn_params f) pos kw) as [why|args].
    + by exists (BindError why).
    + destruct H. by eexists.
Qed.

(** X1. Which calls reach the delegate. A call of [max] or [min] runs
    [amax] or [amin] when it has at most three positional arguments, no
    keyword twice, only keywords that name a parameter no positional
    argument has filled, and [a] supplied by position or by keyword; a call
    of [round] likewise, with two parameters. Every other call raises
    [TypeError] and leaves the state as it was. *)
Theorem accepted_calls pos kw s :
  let fits names :=
    (length pos ≤ length names)%nat ∧
    NoDup kw.*1 ∧
    (∀ k, k ∈ kw.*1 → k ∈ drop (length pos) names) ∧
    (pos = [] → "a" ∈ kw.*1) in
  (fits ["a"; "axis"; "keepdims"] →
   ∃ a axis keepdims, call max pos kw s =
     invoke "amax" amax [a] [("axis", axis); ("keepdims", keepdims)] s) ∧
  (¬ fits ["a"; "axis"; "keepdims"] →
   ∃ e, call max pos kw s = (Raises e, s) ∧ exn_kind e = "TypeError") ∧
  (fits ["a"; "axis"; "keepdims"] →
   ∃ a axis keepdims, call min pos kw s =
     invoke "amin" amin [a] [("axis", axis); ("keepdims", keepdims)] s) ∧
  (¬ fits ["a"; "axis"; "keepdims"] →
   ∃ e, call min pos kw s = (Raises e, s) ∧ exn_kind e = "TypeError") ∧
  (fits ["a"; "decimals"] →
   ∃ a decimals, call round pos kw s =
     invoke "around" around [a] [("decimals", decimals)] s) ∧
  (¬ fits ["a"; "decimals"] →
   ∃ e, call round pos kw s = (Raises e, s) ∧ exn_kind e = "TypeError").
Proof.
  intros fits.
  assert ((∃ args, bind_args max_params pos kw = inr args)
          ↔ fits ["a"; "axis"; "keepdims"]) as H3.
  { rewrite (bind_args_accepts _ _ _ max_params_NoDup).
    apply (fits_first_required (Param "a" None)
             [Param "axis" (Some VNone); Param "keepdims" (Some VNone)]);
      [done|]. repeat constructor; by eexists. }
  assert ((∃ args, bind_args round_params pos kw = inr args)
          ↔ fits ["a"; "decimals"]) as H2.
  { rewrite (bind_args_accepts _ _ _ round_params_NoDup).
    apply (fits_first_required (Param "a" None)
             [Param "decimals" (Some (VInt 0))]);
      [done|]. repeat constructor; by eexists. }
  split; [|split; [|split; [|split; [|split]]]].
  - intros [args E]%H3.
    destruct (bind_args_3 _ _ _ _ _ _ E) as (a & axis & keepdims & ->).
    exists a, axis, keepdims.
    by rewrite (call_max_bound amax np_doc np_doc_code _ _ _ _ _ E).
  - intros Hno.
    apply (call_fits (Function "max" None max_params (body3 (max_body amax)))
             "max" (AliasOf "maximum") pos kw s max_params_NoDup).
    by rewrite H3.
  - intros [args E]%H3.
    destruct (bind_args_3 _ _ _ _ _ _ E) as (a & axis & keepdims & ->).
    exists a, axis, keepdims.
    by rewrite (call_min_bound amin np_doc np_doc_code _ _ _ _ _ E).
  - intros Hno.
    apply (call_fits (Function "min" None min_params (body3 (min_body amin)))
             "min" (AliasOf "minimum") pos kw s max_params_NoDup).
    by rewrite H3.
  - intros [args E]%H2.
    destruct (bind_args_2 _ _ _ _ _ E) as (a & decimals & ->).
    exists a, decimals.
    by rewrite (call_round_bound around np_doc np_doc_code _ _ _ _ E).
  - intros Hno.
    apply (call_fits
             (Function "round" None round_params (body2 (round_body around)))
             "round" (AliasOf "around") pos kw s round_params_NoDup).
    by rewrite H2.
Qed.


(** X3. The order of the keywords does not matter: a call and the same
    call with its keywords permuted either both run the delegate, with the
    same result, or both raise [TypeError] and leave the state alone. *)
Theorem keyword_order_irrelevant pos kw kw' s :
  kw ≡ₚ kw' →
  let same (f : pyfunction World) :=
    call f pos kw' s = call f pos kw s ∨
    ∃ e e', call f pos kw s = (Raises e, s) ∧
            call f pos kw' s = (Raises e', s) ∧
            exn_kind e = "TypeError" ∧ exn_kind e' = "TypeError" in
  same max ∧ same min ∧ same round.
Proof.
  intros Hperm same.
  assert (∀ (f : pyfunction World) name l,
            NoDup (p_name <$> fn_params f) → same (np_doc name l f)) as Hsame.
  { intros f name l Hnd. unfold same. rewrite !call_decorated by done.
    unfold call.
    destruct (bind_args (fn_params f) pos kw) as [why|args] eqn:E.
    - right. destruct (bind_args (fn_params f) pos kw') as [why'|args'] eqn:E'.
      + by exists (BindError why), (BindError why').
      + symmetry in Hperm.
        by rewrite (bind_args_perm _ _ _ _ _ Hnd Hperm E') in E.
    - left. by rewrite (bind_args_perm _ _ _ _ _ Hnd Hperm E). }
  split; [|split].
  - apply Hsame, max_params_NoDup.
  - apply Hsame, max_params_NoDup.
  - apply Hsame, round_params_NoDup.
Qed.

(** X4. Every parameter can be given by position or by keyword: a call
    that gives the first [i] arguments by position and the others by
    keyword does what the call with all of them by position does. *)
Theorem positional_or_keyword i a axis keepdims decimals s :
  call max (take i [a; axis; keepdims])
           (drop i [("a", a); ("axis", axis); ("keepdims", keepdims)]) s
    = call max [a; axis; keepdims] [] s ∧
  call min (take i [a; axis; keepdims])
           (drop i [("a", a); ("axis", axis); ("keepdims", keepdims)]) s
    = call min [a; axis; keepdims] [] s ∧
  call round (take i [a; decimals])
             (drop i [("a", a); ("decimals", decimals)]) s
    = call round [a; decimals] [] s.
Proof.
  split; [|split].
  - rewrite (call_max_bound amax np_doc np_doc_code
               [a; axis; keepdims] [] a axis keepdims) by done.
    by destruct i as [|[|[|[|i]]]];
      rewrite (call_max_bound amax np_doc np_doc_code _ _ a axis keepdims).
  - rewrite (call_min_bound amin np_doc np_doc_code
               [a; axis; keepdims] [] a axis keepdims) by done.
    by destruct i as [|[|[|[|i]]]];
      rewrite (call_min_bound amin np_doc np_doc_code _ _ a axis keepdims).
  - rewrite (call_round_bound around np_doc np_doc_code
               [a; decimals] [] a decimals) by done.
    by destruct i as [|[|[|i]]];
      rewrite (call_round_bound around np_doc np_doc_code _ _ a decimals).
Qed.

End WrapperCalls.

(** ** Loading the module *)

Section LoadFacts.
Import Namespace.
Context {F : Type}.
Implicit Types (env : gmap string (pymodule F)) (ns : gmap string (object F)).
Implicit Types (st : stmt F) (body : list (stmt F)) (n m name : string).







Ltac not_assigned_later :=
  repeat match goal with
         | |- Forall _ [] => apply Forall_nil_2
         | |- Forall _ (_ :: _) => apply Forall_cons_2
         | |- assigns _ (ImportFrom _ _ _) _ = false =>
             apply assigns_import_false; congruence
         | |- assigns _ (Def _ _) _ = false =>
             apply assigns_def_false; congruence
         end.

(** X7. The three [def]s come last, so once the module has loaded [max],
    [min] and [round] are the file's own functions, whatever the imports
    before them bring under these names. *)
Theorem wrappers_shadow_imports env (fmax fmin fround : F) ns :
  exec_module env fmax fmin fround = inr ns →
  ns !! "max" = Some (Fun fmax) ∧
  ns !! "min" = Some (Fun fmin) ∧
  ns !! "round" = Some (Fun fround).
Proof.
  intros Hexec.
  split; [|split]; by rewrite (exec_block_lookup _ _ _ _ _ Hexec).
Qed.

(** X8. A wildcard import after a binding overrides it: a name that
    [np_math_ops], the last wildcard source, brings is bound to the object
    of [np_math_ops], also when it is [newaxis], [random], [np_utils] or
    [ndarray] or a name of an earlier wildcard import; only the names the
    file assigns afterwards are out of its reach. *)
Theorem last_wildcard_import_wins env (fmax fmin fround : F) ns n :
  exec_module env fmax fmin fround = inr ns →
  n ∈ star_names_of env "tensorflow.python.ops.numpy_ops.np_math_ops" →
  n ∉ ["finfo"; "promote_types"; "result_type"; "max"; "min"; "round"] →
  is_Some (ns !! n) ∧
  ns !! n =
    source_object env "tensorflow.python.ops.numpy_ops.np_math_ops" n.
Proof.
  intros Hexec Hin Hout. rewrite !not_elem_of_cons in Hout. destruct_and!.
  assert (last_binder env (module_body fmax fmin fround) n
          = Some (ImportStar "tensorflow.python.ops.numpy_ops.np_math_ops"))
    as L.
  { unfold module_body.
    eapply (last_binder_split env _
      [ImportFrom "__future__" "absolute_import" "absolute_import";
       ImportFrom "__future__" "division" "division";
       ImportFrom "__future__" "print_function" "print_function";
       ImportFrom "tensorflow.python.ops.array_ops" "newaxis" "newaxis";
       ImportFrom "tensorflow.python.ops.numpy_ops" "np_random" "random";
       ImportFrom "tensorflow.python.ops.numpy_ops" "np_utils" "np_utils";
       ImportStar "tensorflow.python.ops.numpy_ops.np_array_ops";
       ImportFrom "tensorflow.python.ops.numpy_ops.np_arrays"
         "ndarray" "ndarray";
       ImportStar "tensorflow.python.ops.numpy_ops.np_dtypes"]);
      [reflexivity| |not_assigned_later].
    rewrite assigns_star. by apply bool_decide_eq_true. }
  pose proof (exec_block_lookup _ _ _ _ n Hexec) as Hn. rewrite L in Hn.
  split; [|done]. rewrite Hn. by apply (exec_block_bound _ _ _ _ _ _ Hexec L).
Qed.



End LoadFacts.

(** ** The further properties on the small runtime *)

(** [max(vec, axis=0)] is accepted; [max(axis=0)] lacks [a]. *)
Lemma accepted_calls_witness :
  (∃ a axis keepdims,
     call Demo.max [Demo.vec] [("axis", VInt 0)] Demo.s0 =
     invoke "amax" Demo.amax [a] [("axis", axis); ("keepdims", keepdims)]
       Demo.s0) ∧
  (∃ e, call Demo.max [] [("axis", VInt 0)] Demo.s0 = (Raises e, Demo.s0) ∧
        exn_kind e = "TypeError").
Proof.
  split.
  - apply (accepted_calls Demo.amax Demo.amin Demo.around Demo.np_doc
             ltac:(demo_decorator) [Demo.vec] [("axis", VInt 0)] Demo.s0).
    simpl. split; [lia|]. split; [decide_closed|]. split; [|done].
    intros k [->|[]%elem_of_nil]%elem_of_cons. decide_closed.
  - apply (accepted_calls Demo.amax Demo.amin Demo.around Demo.np_doc
             ltac:(demo_decorator) [] [("axis", VInt 0)] Demo.s0).
    simpl. intros (_ & _ & _ & Ha). specialize (Ha eq_refl).
    by apply (bool_decide_eq_false_1 ("a" ∈ ["axis"])) in Ha.
Defined.

(** [max(vec, keepdims=True, axis=0)] and [max(vec, axis=0, keepdims=True)]. *)
Lemma keyword_order_irrelevant_witness :
  [("axis", VInt 0); ("keepdims", VBool true)]
    ≡ₚ [("keepdims", VBool true); ("axis", VInt 0)] ∧
  call Demo.max [Demo.vec] [("keepdims", VBool true); ("axis", VInt 0)] Demo.s0
  = call Demo.max [Demo.vec] [("axis", VInt 0); ("keepdims", VBool true)]
      Demo.s0.
Proof.
  split; [apply perm_swap|].
  destruct (keyword_order_irrelevant Demo.amax Demo.amin Demo.around
              Demo.np_doc ltac:(demo_decorator) [Demo.vec]
              [("axis", VInt 0); ("keepdims", VBool true)]
              [("keepdims", VBool true); ("axis", VInt 0)] Demo.s0
              (perm_swap _ _ _)) as ([Hsame|(e & e' & He & _)] & _ & _).
  - exact Hsame.
  - vm_compute in He. discriminate He.
Defined.

(** [max(vec, axis=0, keepdims=None)] and [max(vec, 0, None)]. *)
Lemma positional_or_keyword_witness :
  call Demo.max [Demo.vec] [("axis", VInt 0); ("keepdims", VNone)] Demo.s0
  = call Demo.max [Demo.vec; VInt 0; VNone] [] Demo.s0.
Proof.
  apply (positional_or_keyword Demo.amax Demo.amin Demo.around Demo.np_doc
           ltac:(demo_decorator) 1 Demo.vec (VInt 0) VNone VNone Demo.s0).
Defined.


(** [np_math_ops] brings a [max] of its own; the module's [max] is the
    wrapper all the same. *)
Lemma wrappers_shadow_imports_witness :
  Namespace.exec_module Demo.env_clash Demo.max Demo.min Demo.round
    = inr Demo.ns_clash ∧
  Namespace.source_object Demo.env_clash
    "tensorflow.python.ops.numpy_ops.np_math_ops" "max"
    = Some (Namespace.Ext 53) ∧
  Demo.ns_clash !! "max" = Some (Namespace.Fun Demo.max).
Proof.
  assert (Namespace.exec_module Demo.env_clash Demo.max Demo.min Demo.round
          = inr Demo.ns_clash) as Hexec by (vm_compute; reflexivity).
  split; [exact Hexec|]. split; [vm_compute; reflexivity|].
  apply (wrappers_shadow_imports _ _ _ _ _ Hexec).
Defined.

(** [np_math_ops] brings an [ndarray] of its own, and that is what the
    module's [ndarray] is, not the class that line 177 imports. *)
Lemma last_wildcard_import_wins_witness :
  Namespace.exec_module Demo.env_clash Demo.max Demo.min Demo.round
    = inr Demo.ns_clash ∧
  Namespace.source_object Demo.env_clash
    "tensorflow.python.ops.numpy_ops.np_arrays" "ndarray"
    = Some (Namespace.Ext 30) ∧
  Demo.ns_clash !! "ndarray" = Some (Namespace.Ext 54).
Proof.
  assert (Namespace.exec_module Demo.env_clash Demo.max Demo.min Demo.round
          = inr Demo.ns_clash) as Hexec by (vm_compute; reflexivity).
  split; [exact Hexec|]. split; [vm_compute; reflexivity|].
  destruct (last_wildcard_import_wins Demo.env_clash Demo.max Demo.min
              Demo.round Demo.ns_clash "ndarray" Hexec) as [_ ->].
  - decide_closed.
  - decide_closed.
  - vm_compute; reflexivity.
Defined.


